(** * Verification of [fix_project_manager.py]

    The script reads [src/components/ProjectManagerModal.tsx], applies six
    [re.sub] calls one after the other, writes the text back to the same
    path and prints one line.  This file embeds the script and settles the
    properties stated about it.

    Layout: the data model and the operations come first (text, the part
    of Python's [re] the script uses, the twelve string constants of the
    script, the file store and the script itself), then the theory of
    literal substitution, then the properties of the script. *)

From Stdlib Require Import NArith Ascii String List Bool Lia.
From stdpp Require Import base option list gmap strings.

Local Open Scope N_scope.

(** ** Text *)

(** A Python [str] is a sequence of Unicode code points.  The file store
    below holds, for each file, the text a read in text mode returns. *)
Abbreviation char := N (only parsing).
Abbreviation text := (list N) (only parsing).

(** The code points of an ASCII literal. *)
Fixpoint lit (s : string) : text :=
  match s with
  | EmptyString => []
  | String a s' => N_of_ascii a :: lit s'
  end.

(** The double quote, which the string constants below splice in. *)
Definition dq : string := String "034"%char EmptyString.

Definition newline : text := [10].

(** [sep.join(parts)]. *)
Fixpoint join (sep : text) (parts : list text) : text :=
  match parts with
  | [] => []
  | [p] => p
  | p :: rest => p ++ sep ++ join sep rest
  end.

(** A triple-quoted constant, given line by line. *)
Definition lines (ls : list string) : text := join newline (map lit ls).

(** [t.startswith(p)]. *)
Fixpoint starts_with (p t : text) : bool :=
  match p, t with
  | [], _ => true
  | _ :: _, [] => false
  | a :: p', c :: t' => (a =? c) && starts_with p' t'
  end.

(** [p in t]: [p] occurs in [t] verbatim. *)
Fixpoint occurs (p t : text) : bool :=
  starts_with p t ||
  match t with
  | [] => false
  | _ :: t' => occurs p t'
  end.

(** ** The fragment of [re] the script uses

    Every pattern of the script is a sequence of ordinary characters and
    backslash-escaped punctuation.  [regex_literal] follows the parser of
    [re] on that fragment and returns the literal text such a pattern
    matches; it returns [None] as soon as it meets anything else (an
    unescaped metacharacter, an escape with a letter or a digit, an
    opening brace that could start a repetition). *)

Definition is_digit (c : char) : bool := (48 <=? c) && (c <=? 57).

Definition is_ascii_letter (c : char) : bool :=
  ((65 <=? c) && (c <=? 90)) || ((97 <=? c) && (c <=? 122)).

(** The characters [. ^ $ * + ? ( ) [ |], special when not escaped.  The
    brace and the backslash are handled apart; [re] reads an unescaped
    closing bracket or brace as itself. *)
Definition is_meta (c : char) : bool :=
  existsb (N.eqb c) [46; 94; 36; 42; 43; 63; 40; 41; 91; 124].

Definition backslash : char := 92.
Definition lbrace : char := 123.
Definition comma : char := 44.

Fixpoint regex_literal (p : text) : option text :=
  match p with
  | [] => Some []
  | c :: p' =>
      if c =? backslash then
        match p' with
        | [] => None
        | e :: p'' =>
            if is_digit e || is_ascii_letter e then None
            else cons e <$> regex_literal p''
        end
      else if c =? lbrace then
        (* a brace is a repetition only when digits or a comma follow *)
        match p' with
        | d :: _ =>
            if is_digit d || (d =? comma) then None
            else cons c <$> regex_literal p'
        | [] => Some [c]
        end
      else if is_meta c then None
      else cons c <$> regex_literal p'
  end.

(** A replacement template without a backslash stands for itself. *)
Definition template_literal (repl : text) : option text :=
  if existsb (N.eqb backslash) repl then None else Some repl.

(** Scanning for a non-empty literal [p]: at each position either [p]
    starts there, [r] is emitted and the scan resumes behind the match, or
    the character is copied.  [skip] counts the characters of the current
    match still to be passed over. *)
Fixpoint sub_scan (p r : text) (skip : nat) (t : text) : text :=
  match t with
  | [] => []
  | c :: t' =>
      match skip with
      | S k => sub_scan p r k t'
      | O =>
          if starts_with p t then r ++ sub_scan p r (pred (length p)) t'
          else c :: sub_scan p r 0 t'
      end
  end.

(** Substitution of a literal, all matches (the [count=0] default of
    [re.sub]).  The empty pattern matches before every character and at
    the end. *)
Definition sub (p r t : text) : text :=
  match p with
  | [] => r ++ flat_map (fun c => c :: r) t
  | _ :: _ => sub_scan p r 0 t
  end.

Inductive re_flag := DOTALL.

(** [re.sub(pattern, repl, string, flags=...)] on the modelled fragment.
    [DOTALL] changes the meaning of the unescaped dot only, which
    [regex_literal] does not accept, so the flags play no part. *)
Definition re_sub (pattern repl string : text) (flags : list re_flag)
  : option text :=
  p ← regex_literal pattern;
  r ← template_literal repl;
  Some (sub p r string).

(** ** The string constants of the script *)

(** First call: [customerId] in the [formData] state. *)
Definition formData_state_pattern : text :=
  lit ("const \[formData, setFormData\] = useState\({ name: '', color: COLORS\[0\], customerId: undefined as number \| undefined }\)").

Definition formData_state_repl : text :=
  lit ("const [formData, setFormData] = useState({ name: '', color: COLORS[0], customerFirestoreId: undefined as string | undefined })").

(** Second call: [customerId] in the [setFormData] calls that reset the form. *)
Definition setFormData_reset_pattern : text :=
  lit ("setFormData\({ name: '', color: COLORS\[0\], customerId: undefined }\)").

Definition setFormData_reset_repl : text :=
  lit ("setFormData({ name: '', color: COLORS[0], customerFirestoreId: undefined })").

(** Third call: the [setFormData] call in [handleEdit]. *)
Definition handleEdit_pattern : text :=
  lit ("setFormData\({ name: project\.name, color: project\.color, customerId: project\.customerId }\)").

Definition handleEdit_repl : text :=
  lit ("setFormData({ name: project.name, color: project.color, customerFirestoreId: project.customerFirestoreId })").

(** Fourth call: the [handleSubmit] function. *)
Definition old_submit : text := lines [
    "    try {";
    "      if \(editingProject\) {";
    "        await updateProject\(editingProject\.id!, {";
    "          name: formData\.name\.trim\(\),";
    "          color: formData\.color,";
    "          customerId: formData\.customerId";
    "        }\)";
    "        showToast\('Project updated', 'success'\)";
    "      } else {";
    "        await createProject\({";
    "          name: formData\.name\.trim\(\),";
    "          color: formData\.color,";
    "          customerId: formData\.customerId,";
    "          archived: false";
    "        }\)";
    "        showToast\('Project created', 'success'\)";
    "      }";
    EmptyString;
    "      setEditingProject\(null\)";
    "      setIsCreating\(false\)";
    "      setFormData\({ name: '', color: COLORS\[0\], customerId: undefined }\)";
    "    } catch \(error\) {";
    "      showToast\('Failed to save project', 'error'\)";
    "    }"
  ].

Definition new_submit : text := lines [
    "    try {";
    "      // Find the customer's local ID for backward compatibility";
    "      const customer = formData.customerFirestoreId ";
    "        ? customers.find(c => c.firestoreId === formData.customerFirestoreId)";
    "        : undefined;";
    EmptyString;
    "      if (editingProject) {";
    "        await updateProject(editingProject.id!, {";
    "          name: formData.name.trim(),";
    "          color: formData.color,";
    "          customerId: customer?.id,";
    "          customerFirestoreId: formData.customerFirestoreId";
    "        })";
    "        showToast('Project updated', 'success')";
    "      } else {";
    "        await createProject({";
    "          name: formData.name.trim(),";
    "          color: formData.color,";
    "          customerId: customer?.id,";
    "          customerFirestoreId: formData.customerFirestoreId,";
    "          archived: false";
    "        })";
    "        showToast('Project created', 'success')";
    "      }";
    EmptyString;
    "      setEditingProject(null)";
    "      setIsCreating(false)";
    "      setFormData({ name: '', color: COLORS[0], customerFirestoreId: undefined })";
    "    } catch (error) {";
    "      showToast('Failed to save project', 'error')";
    "    }"
  ].

(** Fifth call: the customer select dropdown. *)
Definition old_select : text := lines [
    "                <select";
    "                  value={formData\.customerId \|\| ''}";
    "                  onChange={\(e\) => setFormData\({ \.\.\.formData, customerId: e\.target\.value \? Number\(e\.target\.value\) : undefined }\)}";
    "                  className=" +:+ dq +:+ "w-full border border-gray-300 dark:border-gray-600 dark:bg-gray-800 dark:text-white rounded-md px-3 py-2 focus:outline-none focus:ring-2 focus:ring-blue-500" +:+ dq;
    "                >";
    "                  <option value=" +:+ dq +:+ dq +:+ ">No customer</option>";
    "                  {customers\.filter\(c => !c\.archived\)\.map\(\(customer\) => \(";
    "                    <option key={customer\.id} value={customer\.id}>";
    "                      {customer\.companyName}";
    "                    </option>";
    "                  \)\)}";
    "                </select>"
  ].

Definition new_select : text := lines [
    "                <select";
    "                  value={formData.customerFirestoreId || ''}";
    "                  onChange={(e) => setFormData({ ...formData, customerFirestoreId: e.target.value || undefined })}";
    "                  className=" +:+ dq +:+ "w-full border border-gray-300 dark:border-gray-600 dark:bg-gray-800 dark:text-white rounded-md px-3 py-2 focus:outline-none focus:ring-2 focus:ring-blue-500" +:+ dq;
    "                >";
    "                  <option value=" +:+ dq +:+ dq +:+ ">No customer</option>";
    "                  {customers.filter(c => !c.archived).map((customer) => (";
    "                    <option key={customer.id} value={customer.firestoreId}>";
    "                      {customer.companyName}";
    "                    </option>";
    "                  ))}";
    "                </select>"
  ].

(** Sixth call: the [ProjectItem] function. *)
Definition old_project_item : text := lines [
    "function ProjectItem\({ project, onEdit, onDelete, onArchive }: ProjectItemProps\) {";
    "  return \(";
    "    <div className={`";
    "      flex items-center justify-between p-3 border border-gray-200 dark:border-gray-700 rounded-lg";
    "      \$\{project\.archived \? 'bg-gray-50 dark:bg-gray-700 opacity-75' : 'bg-white dark:bg-gray-800 hover:bg-gray-50 dark:hover:bg-gray-700'\}";
    "    `}>";
    "      <div className=" +:+ dq +:+ "flex items-center" +:+ dq +:+ ">";
    "        <div";
    "          className=" +:+ dq +:+ "w-4 h-4 rounded-full mr-3 flex-shrink-0" +:+ dq;
    "          style=\{\{ backgroundColor: project\.color \}\}";
    "        />";
    "        <span className={`font-medium \$\{project\.archived \? 'text-gray-500 dark:text-gray-400' : 'text-gray-900 dark:text-white'\}`}>";
    "          \{project\.name\}";
    "        </span>";
    "        \{project\.archived && \(";
    "          <span className=" +:+ dq +:+ "ml-2 px-2 py-1 bg-gray-200 dark:bg-gray-600 text-gray-600 dark:text-gray-300 text-xs rounded-full" +:+ dq +:+ ">";
    "            Archived";
    "          </span>";
    "        \)\}";
    "      </div>"
  ].

Definition new_project_item : text := lines [
    "function ProjectItem({ project, onEdit, onDelete, onArchive }: ProjectItemProps) {";
    "  const { customers } = useCustomersStore();";
    "  const customer = project.customerFirestoreId ";
    "    ? customers.find(c => c.firestoreId === project.customerFirestoreId)";
    "    : undefined;";
    EmptyString;
    "  return (";
    "    <div className={`";
    "      flex items-center justify-between p-3 border border-gray-200 dark:border-gray-700 rounded-lg";
    "      ${project.archived ? 'bg-gray-50 dark:bg-gray-700 opacity-75' : 'bg-white dark:bg-gray-800 hover:bg-gray-50 dark:hover:bg-gray-700'}";
    "    `}>";
    "      <div className=" +:+ dq +:+ "flex items-center" +:+ dq +:+ ">";
    "        <div";
    "          className=" +:+ dq +:+ "w-4 h-4 rounded-full mr-3 flex-shrink-0" +:+ dq;
    "          style={{ backgroundColor: project.color }}";
    "        />";
    "        <div className=" +:+ dq +:+ "flex flex-col" +:+ dq +:+ ">";
    "          <span className={`font-medium ${project.archived ? 'text-gray-500 dark:text-gray-400' : 'text-gray-900 dark:text-white'}`}>";
    "            {project.name}";
    "          </span>";
    "          {customer && (";
    "            <span className=" +:+ dq +:+ "text-xs text-gray-500 dark:text-gray-400" +:+ dq +:+ ">";
    "              {customer.companyName}";
    "            </span>";
    "          )}";
    "        </div>";
    "        {project.archived && (";
    "          <span className=" +:+ dq +:+ "ml-2 px-2 py-1 bg-gray-200 dark:bg-gray-600 text-gray-600 dark:text-gray-300 text-xs rounded-full" +:+ dq +:+ ">";
    "            Archived";
    "          </span>";
    "        )}";
    "      </div>"
  ].

(** The text each pattern matches. *)
Definition matched (pattern : text) : text := default [] (regex_literal pattern).

Definition formData_state_old : text := matched formData_state_pattern.
Definition setFormData_reset_old : text := matched setFormData_reset_pattern.
Definition handleEdit_old : text := matched handleEdit_pattern.
Definition submit_old : text := matched old_submit.
Definition select_old : text := matched old_select.
Definition project_item_old : text := matched old_project_item.

(** ** The rewriter *)

(** The six [re.sub] calls of the script, in the order of the script; each
    works on the result of the one before. *)
Definition rewrite_re (content : text) : option text :=
  content ← re_sub formData_state_pattern formData_state_repl content [];
  content ← re_sub setFormData_reset_pattern setFormData_reset_repl content [];
  content ← re_sub handleEdit_pattern handleEdit_repl content [];
  content ← re_sub old_submit new_submit content [DOTALL];
  content ← re_sub old_select new_select content [DOTALL];
  re_sub old_project_item new_project_item content [DOTALL].

(** The same six steps as pairs of an original fragment and its
    replacement. *)
Definition transformations : list (text * text) :=
  [ (formData_state_old, formData_state_repl);
    (setFormData_reset_old, setFormData_reset_repl);
    (handleEdit_old, handleEdit_repl);
    (submit_old, new_submit);
    (select_old, new_select);
    (project_item_old, new_project_item) ].

Definition apply_all (trs : list (text * text)) (content : text) : text :=
  foldl (fun c tr => sub tr.1 tr.2 c) content trs.

Definition rewrite (content : text) : text := apply_all transformations content.

(** The line the first step renames, the line it becomes, and the text
    around it in the state declaration. *)
Definition customerId_line : text :=
  lit "customerId: undefined as number | undefined".
Definition customerFirestoreId_line : text :=
  lit "customerFirestoreId: undefined as string | undefined".
Definition state_decl_before : text :=
  lit "const [formData, setFormData] = useState({ name: '', color: COLORS[0], ".
Definition state_decl_after : text := lit " })".

(** ** Files, output and the script *)

Definition target : string := "src/components/ProjectManagerModal.tsx".

Definition success_line : text := lit "File updated successfully!".

Record file := File { contents : text; readable : bool; writable : bool }.

(** What the script did, in order. *)
Inductive event :=
  | EvRead (path : string)
  | EvWrite (path : string) (data : text)
  | EvPrint (line : text).

(** The file store, the effects so far, and the surroundings of the
    process, which the script never consults. *)
Record world := World {
  files : gmap string file;
  journal : list event;
  argv : list string;
  environ : gmap string string
}.

Inductive exn := FileNotFoundError | PermissionError | ReError.

Definition M (A : Type) : Type := world -> (exn + A) * world.

#[global] Instance M_ret : MRet M := fun A x w => (inr x, w).
#[global] Instance M_bind : MBind M := fun A B k m w =>
  match m w with
  | (inl e, w') => (inl e, w')
  | (inr x, w') => k x w'
  end.

Definition raise {A} (e : exn) : M A := fun w => (inl e, w).

Definition record (e : event) (w : world) : world :=
  World (files w) (journal w ++ [e]) (argv w) (environ w).

Definition store (path : string) (f : file) (w : world) : world :=
  World (<[path := f]> (files w)) (journal w) (argv w) (environ w).

(** [with open(path, 'r', encoding='utf-8') as f: f.read()] *)
Definition read_text (path : string) : M text := fun w =>
  match files w !! path with
  | None => (inl FileNotFoundError, w)
  | Some f =>
      if readable f then (inr (contents f), record (EvRead path) w)
      else (inl PermissionError, w)
  end.

(** [with open(path, 'w', encoding='utf-8') as f: f.write(data)]: the
    file is created when absent and replaced when present. *)
Definition write_text (path : string) (data : text) : M unit := fun w =>
  match files w !! path with
  | None =>
      (inr tt, record (EvWrite path data) (store path (File data true true) w))
  | Some f =>
      if writable f then
        (inr tt, record (EvWrite path data)
                   (store path (File data (readable f) true) w))
      else (inl PermissionError, w)
  end.

(** [print(line)] *)
Definition print (line : text) : M unit := fun w =>
  (inr tt, record (EvPrint line) w).

(** A pattern outside the modelled fragment stops the script. *)
Definition compiled {A} (o : option A) : M A :=
  match o with
  | Some x => mret x
  | None => raise ReError
  end.

Definition main : M unit :=
  content ← read_text target;
  content ← compiled (re_sub formData_state_pattern formData_state_repl content []);
  content ← compiled (re_sub setFormData_reset_pattern setFormData_reset_repl content []);
  content ← compiled (re_sub handleEdit_pattern handleEdit_repl content []);
  content ← compiled (re_sub old_submit new_submit content [DOTALL]);
  content ← compiled (re_sub old_select new_select content [DOTALL]);
  content ← compiled (re_sub old_project_item new_project_item content [DOTALL]);
  write_text target content;;
  print success_line.

(** What reached standard output. *)
Definition stdout (w : world) : list text :=
  omap (fun e => match e with EvPrint l => Some l | _ => None end) (journal w).

(** What was written, and where. *)
Definition writes (w : world) : list (string * text) :=
  omap (fun e => match e with EvWrite p d => Some (p, d) | _ => None end)
       (journal w).

Definition raised {A} (r : (exn + A) * world) : bool :=
  match r.1 with inl _ => true | inr _ => false end.

(** ** Deciding how two fragments can overlap *)

(** [x] and [y] agree as far as both go: one is a prefix of the other. *)
Fixpoint agree (x y : text) : bool :=
  match x, y with
  | a :: x', b :: y' => (a =? b) && agree x' y'
  | _, _ => true
  end.

(** Some non-empty suffix of [y] agrees with [x]. *)
Fixpoint tails_agree (x y : text) : bool :=
  match y with
  | [] => false
  | _ :: y' => agree x y || tails_agree x y'
  end.

(** No placement of [p] over a block [m] makes the two agree where they
    overlap: [p] can neither start inside [m] nor run into it. *)
Definition no_touch (p m : text) : bool :=
  negb (tails_agree p m) && negb (tails_agree m (tail p)).

(** [p] overlaps no shifted copy of itself. *)
Definition unbordered (p : text) : bool :=
  match p with
  | [] => false
  | _ :: p' => negb (tails_agree p p')
  end.

(** The offsets, counted from the start of [p], at which [p] placed over a
    block [m] starting there agrees with it. *)
Fixpoint run_in_offsets (m : text) (k : nat) (p : text) : list nat :=
  match p with
  | [] => []
  | _ :: p' =>
      (if agree p m then [k] else []) ++ run_in_offsets m (S k) p'
  end.

Local Close Scope N_scope.

(** ** How occurrences of a pattern can lie in a text *)

(** Every occurrence of [p] in [a ++ m ++ b] lies within [a] or within
    [b]: none touches the block [m]. *)
Definition Isolated (p a m b : text) : Prop :=
  forall x y, a ++ m ++ b = x ++ p ++ y ->
    length x + length p <= length a \/ length a + length m <= length x.

(** [p] touches no copy of [m], wherever it stands. *)
Definition NoTouch (p m : text) : Prop := forall a b, Isolated p a m b.

(** Two occurrences of [p] never overlap. *)
Definition Unbordered (p : text) : Prop :=
  p <> [] /\
  forall a b x y, a ++ p ++ b = x ++ p ++ y ->
    length x + length p <= length a \/ length a + length p <= length x \/
    length x = length a.

(** One step seen from outside: the text is cut at occurrences of [p],
    the pieces between them are kept, each in its place, and [r] stands
    where [p] stood. *)
Definition framed (p r t t' : text) : Prop :=
  exists gaps, t = join p gaps /\ t' = join r gaps /\
               Forall (fun g => occurs p g = false) gaps.

(** A run of steps, each on the text the one before produced. *)
Fixpoint framed_chain (trs : list (text * text)) (t t' : text) : Prop :=
  match trs with
  | [] => t' = t
  | tr :: rest => exists t1, framed tr.1 tr.2 t t1 /\ framed_chain rest t1 t'
  end.

(** ** Checks on a list of steps *)

Definition nonempty (p : text) : bool :=
  match p with [] => false | _ :: _ => true end.

(** No pattern of [trs] can touch the block [m]. *)
Definition clear_of (trs : list (text * text)) (m : text) : bool :=
  forallb (fun tr => nonempty tr.1 && no_touch tr.1 m) trs.

(** No pattern overlaps itself, and none can touch any replacement. *)
Definition separated (trs : list (text * text)) : bool :=
  forallb (fun tr => unbordered tr.1) trs &&
  forallb (fun tr => clear_of trs tr.2) trs.

Definition Separated (trs : list (text * text)) : Prop :=
  Forall (fun tr => Unbordered tr.1) trs /\
  Forall (fun tr' => Forall (fun tr => tr.1 <> [] /\ NoTouch tr.1 tr'.2) trs) trs.

(** ** Test inputs *)

(** The six original fragments, one after the other. *)
Definition fixture : text := join newline (map fst transformations).

(** The same without the state declaration. *)
Definition fixture_without_state : text :=
  join newline (map fst (drop 1 transformations)).

(** The submit handler as the second step leaves it. *)
Definition submit_half_rewritten : text :=
  sub setFormData_reset_old setFormData_reset_repl submit_old.

(** The script without its fourth step. *)
Definition transformations_without_submit : list (text * text) :=
  take 3 transformations ++ drop 4 transformations.



(** A store that holds the fixture at the target path. *)
Definition world_with (f : file) : world :=
  World {[ target := f ]} [] [] ∅.

Definition writable_world : world := world_with (File fixture true true).
Definition read_only_world : world := world_with (File fixture true false).
Definition empty_world : world := World ∅ [] [] ∅.

(** A store with other files, an earlier effect, arguments and an
    environment around the same target file. *)
Definition busy_world : world :=
  World (<[ "README.md" := File (lit "notes") true false ]>
           {[ target := File fixture true true ]})
        [EvPrint (lit "earlier")] ["--dry-run"] {[ "HOME" := "/root" ]}.

(** ** More on how a pattern can meet a block *)

(** Some non-empty suffix of [m] is a proper prefix of [p]: an occurrence
    of [p] could start inside [m] and run past its end. *)
Fixpoint hangs_out (p m : text) : bool :=
  match m with
  | [] => false
  | _ :: m' => (starts_with m p && Nat.ltb (length m) (length p)) || hangs_out p m'
  end.

(** An occurrence of [p] that touches the block [m] lies within it: [p]
    can neither run into [m] from the left nor out of it to the right. *)
Definition contained (p m : text) : bool :=
  negb (tails_agree m (tail p)) && negb (hangs_out p m).

(** Every occurrence of [p] in [a ++ m ++ b] lies within [a], within [m]
    or within [b]. *)
Definition Contained (p a m b : text) : Prop :=
  forall x y, a ++ m ++ b = x ++ p ++ y ->
    length x + length p <= length a \/ length a + length m <= length x \/
    (length a <= length x /\ length x + length p <= length a + length m).

(** Two steps that can be done in either order: neither pattern can touch
    the other pattern or the other replacement. *)
Definition commuting (tr tr' : text * text) : bool :=
  nonempty tr.1 && unbordered tr'.1 &&
  no_touch tr.1 tr'.2 && no_touch tr.1 tr'.1 && no_touch tr'.1 tr.2.

(** Any two different steps of [trs] can be done in either order. *)
Definition independent (trs : list (text * text)) : bool :=
  forallb (fun tr =>
    forallb (fun tr' => bool_decide (tr = tr') || commuting tr tr') trs) trs.

(** A pattern with its backslashes taken out. *)
Definition unescaped (pattern : text) : text :=
  filter (fun c => c <> backslash) pattern.

(** No replacement is shorter than what it replaces. *)
Definition growing (trs : list (text * text)) : bool :=
  forallb (fun tr => nonempty tr.1 && Nat.ltb (length tr.1) (length tr.2)) trs.

(** An occurrence of the pattern of [tr] keeps its place through the run
    [pre ++ tr :: post]: the steps before cannot touch the pattern, the
    pattern overlaps no copy of itself, the steps after cannot touch the
    replacement. *)
Definition in_place (pre : list (text * text)) (tr : text * text)
    (post : list (text * text)) : bool :=
  clear_of pre tr.1 && unbordered tr.1 && clear_of post tr.2.

(** The block [m] keeps its place through the run [pre ++ tr :: post] and
    is rewritten by the step [tr] alone. *)
Definition block_in_place (pre : list (text * text)) (tr : text * text)
    (post : list (text * text)) (m : text) : bool :=
  clear_of pre m && nonempty tr.1 && contained tr.1 m &&
  clear_of post (sub tr.1 tr.2 m).

(** The five steps in the opposite order. *)
Definition live_steps_reversed : list (text * text) :=
  reverse transformations_without_submit.

(** * Literal substitution *)

Section Matching.
Implicit Types (p r t a b x y m : text) (c : N).

Lemma starts_with_app p t : starts_with p (p ++ t) = true.
Proof.
  induction p as [|c p IH]; [done|].
  cbn. by rewrite N.eqb_refl, IH.
Qed.

Lemma starts_with_inv p t : starts_with p t = true -> exists t', t = p ++ t'.
Proof.
  revert t. induction p as [|c p IH]; intros t H.
  - by exists t.
  - destruct t as [|d t]; [done|]. cbn in H.
    apply andb_true_iff in H as [Hc Hp]. apply N.eqb_eq in Hc as ->.
    destruct (IH _ Hp) as [t' ->]. by exists t'.
Qed.

Lemma starts_with_iff p t : starts_with p t = true <-> exists t', t = p ++ t'.
Proof.
  split; [apply starts_with_inv|]. intros [t' ->]. apply starts_with_app.
Qed.

Lemma occurs_unfold p t :
  occurs p t =
  starts_with p t || match t with [] => false | _ :: t' => occurs p t' end.
Proof. by destruct t. Qed.

Lemma occurs_iff p t : occurs p t = true <-> exists a b, t = a ++ p ++ b.
Proof.
  split.
  - induction t as [|c t IH]; rewrite occurs_unfold; intros H.
    + rewrite orb_false_r in H. apply starts_with_inv in H as [t' ->].
      by exists [], t'.
    + apply orb_true_iff in H as [H|H].
      * apply starts_with_inv in H as [t' ->]. by exists [], t'.
      * destruct (IH H) as (a & b & ->). by exists (c :: a), b.
  - intros (a & b & ->). induction a as [|c a IH].
    + rewrite occurs_unfold. cbn [app]. by rewrite starts_with_app.
    + cbn [app]. rewrite occurs_unfold, IH. apply orb_true_r.
Qed.

Lemma occurs_false p t :
  occurs p t = false <-> forall a b, t <> a ++ p ++ b.
Proof.
  rewrite <- not_true_iff_false, occurs_iff. split.
  - intros H a b ->. apply H. eauto.
  - intros H (a & b & ->). by eapply H.
Qed.

Lemma occurs_mid p a b : occurs p (a ++ p ++ b) = true.
Proof. apply occurs_iff. eauto. Qed.

Lemma occurs_within p a t b :
  occurs p t = true -> occurs p (a ++ t ++ b) = true.
Proof.
  rewrite !occurs_iff. intros (x & y & ->).
  exists (a ++ x), (y ++ b). by rewrite <- !(assoc_L (++)).
Qed.

Lemma occurs_nil_false p : p <> [] -> occurs p [] = false.
Proof. by destruct p. Qed.

(** Two ways of cutting one text: where the cuts lie decides which
    piece extends the other. *)
Lemma app_cut_le a b x y :
  a ++ b = x ++ y -> length a <= length x ->
  exists k, x = a ++ k /\ b = k ++ y.
Proof.
  intros E L. exists (drop (length a) x). split.
  - rewrite <- (take_drop (length a) x) at 1. f_equal.
    apply (f_equal (take (length a))) in E.
    rewrite take_app_length in E. rewrite take_app_le in E by done. done.
  - apply (f_equal (drop (length a))) in E.
    rewrite drop_app_length in E. rewrite drop_app_le in E by done. done.
Qed.

(** ** The scan *)

Lemma sub_scan_drop p r k t : sub_scan p r k t = sub_scan p r 0 (drop k t).
Proof.
  revert k. induction t as [|c t IH]; intros [|k]; try done.
  cbn [sub_scan drop]. apply IH.
Qed.

Lemma sub_nil p r : p <> [] -> sub p r [] = [].
Proof. by destruct p. Qed.

Lemma sub_match p r t : p <> [] -> sub p r (p ++ t) = r ++ sub p r t.
Proof.
  destruct p as [|c p]; [done|]. intros _. unfold sub.
  change ((c :: p) ++ t) with (c :: (p ++ t)). cbn [sub_scan].
  change (c :: (p ++ t)) with ((c :: p) ++ t).
  rewrite starts_with_app. f_equal.
  rewrite sub_scan_drop. cbn [length pred]. by rewrite drop_app_length.
Qed.

Lemma sub_copy p r c t :
  p <> [] -> starts_with p (c :: t) = false ->
  sub p r (c :: t) = c :: sub p r t.
Proof.
  destruct p as [|c' p]; [done|]. intros _ H. unfold sub.
  cbn [sub_scan]. by rewrite H.
Qed.

(** The scan either finds the pattern in front or copies a character:
    reasoning about [sub] goes by these two cases. *)
Lemma sub_ind p r (Q : text -> text -> Prop) :
  p <> [] ->
  Q [] [] ->
  (forall t out, Q t out -> Q (p ++ t) (r ++ out)) ->
  (forall c t out,
      starts_with p (c :: t) = false -> Q t out -> Q (c :: t) (c :: out)) ->
  forall t, Q t (sub p r t).
Proof.
  intros Hp Hnil Hmatch Hcopy t.
  remember (length t) as n eqn:Hn. revert t Hn.
  induction n as [n IH] using lt_wf_ind. intros t ->.
  destruct t as [|c t]; [by rewrite sub_nil|].
  destruct (starts_with p (c :: t)) eqn:Hs.
  - apply starts_with_inv in Hs as [t' E]. rewrite E, sub_match by done.
    apply Hmatch. eapply IH; [|done].
    apply (f_equal length) in E. rewrite length_app in E.
    destruct p; [done|]. cbn [length] in *. lia.
  - rewrite sub_copy by done. apply Hcopy; [done|].
    eapply IH; [|done]. cbn [length]. lia.
Qed.

(** A text without the pattern is returned as it is. *)
Lemma sub_absent p r t : occurs p t = false -> sub p r t = t.
Proof.
  destruct p as [|c0 p0] eqn:Ep.
  { destruct t; discriminate. }
  rewrite <- Ep. assert (Hp : p <> []) by (by subst).
  clear Ep. induction t as [|c t IH]; intros H.
  - by apply sub_nil.
  - rewrite occurs_unfold in H. apply orb_false_iff in H as [H1 H2].
    rewrite sub_copy by done. by rewrite IH.
Qed.

End Matching.

(** * Occurrences that keep apart *)

Section Separation.
Implicit Types (p q r t a b x y m g : text) (c : N) (gs : list text).

(** The scan of [a ++ t] is the scan of [a] followed by that of [t] when
    no match that starts in [a] runs past its end. *)
Lemma sub_app p r a t :
  p <> [] ->
  (forall x y, a ++ t = x ++ p ++ y -> length x < length a ->
               length x + length p <= length a) ->
  sub p r (a ++ t) = sub p r a ++ sub p r t.
Proof.
  intros Hp. revert t.
  apply (sub_ind p r (fun a out => forall t,
    (forall x y, a ++ t = x ++ p ++ y -> length x < length a ->
                 length x + length p <= length a) ->
    sub p r (a ++ t) = out ++ sub p r t)); [done|done|..].
  - intros k out IH t H. rewrite <- !(assoc_L (++)), sub_match by done.
    f_equal. apply IH. intros x y E Hx.
    specialize (H (p ++ x) y). rewrite <- !(assoc_L (++)), E in H.
    specialize (H eq_refl). rewrite !length_app in *. lia.
  - intros c k out Hs IH t H. cbn [app].
    rewrite sub_copy; [f_equal; apply IH|done|].
    + intros x y E Hx. specialize (H (c :: x) y). cbn [app length] in H.
      rewrite E in H. specialize (H eq_refl). lia.
    + apply not_true_iff_false. intros Hs'.
      apply starts_with_inv in Hs' as [y E].
      specialize (H [] y). cbn [app length] in H.
      specialize (H E ltac:(lia)).
      change (c :: k ++ t) with ((c :: k) ++ t) in E. symmetry in E.
      apply app_cut_le in E as (k' & E & _); [|cbn [length]; lia].
      rewrite E, starts_with_app in Hs. done.
Qed.

(** A block that no match reaches into is copied. *)
Lemma sub_block p r m b :
  p <> [] ->
  (forall x y, m ++ b = x ++ p ++ y -> length m <= length x) ->
  sub p r (m ++ b) = m ++ sub p r b.
Proof.
  intros Hp. induction m as [|c m IH]; intros H; [done|].
  cbn [app]. rewrite sub_copy; [f_equal; apply IH|done|].
  - intros x y E. specialize (H (c :: x) y). cbn [app length] in H.
    rewrite E in H. specialize (H eq_refl). lia.
  - apply not_true_iff_false. intros Hs. apply starts_with_inv in Hs as [y E].
    specialize (H [] y E). cbn [length] in H. lia.
Qed.

Lemma sub_isolated p r a m b :
  p <> [] -> Isolated p a m b ->
  sub p r (a ++ m ++ b) = sub p r a ++ m ++ sub p r b.
Proof.
  intros Hp H. rewrite sub_app; [f_equal; apply sub_block|..]; try done.
  - intros x y E. destruct (H (a ++ x) y) as [L|L].
    + by rewrite E, <- !(assoc_L (++)).
    + destruct p; [done|]. rewrite length_app in L. cbn [length] in L. lia.
    + rewrite length_app in L. lia.
  - intros x y E Hx. destruct (H x y E); lia.
Qed.

Lemma sub_at_occurrence p r a b :
  Unbordered p -> sub p r (a ++ p ++ b) = sub p r a ++ r ++ sub p r b.
Proof.
  intros [Hp H]. rewrite sub_app; [by rewrite sub_match|done|].
  intros x y E Hx. destruct (H a b x y E) as [L|[L|L]]; lia.
Qed.

(** With [k] occurrences in a row all [k] are replaced. *)
Lemma sub_join p r gs :
  Unbordered p -> sub p r (join p gs) = join r (map (sub p r) gs).
Proof.
  intros Hp. induction gs as [|g [|g' gs] IH].
  - cbn. apply sub_nil, Hp.
  - done.
  - change (join p (g :: g' :: gs)) with (g ++ p ++ join p (g' :: gs)).
    rewrite sub_at_occurrence, IH by done. done.
Qed.

(** The pieces between the matches. *)
Lemma sub_framed p r t : p <> [] -> framed p r t (sub p r t).
Proof.
  intros Hp.
  enough (exists g gs, t = join p (g :: gs) /\ sub p r t = join r (g :: gs) /\
                       Forall (fun g => occurs p g = false) (g :: gs))
    as (g & gs & H1 & H2 & H3); [by exists (g :: gs)|].
  apply (sub_ind p r (fun t out => exists g gs,
    t = join p (g :: gs) /\ out = join r (g :: gs) /\
    Forall (fun g => occurs p g = false) (g :: gs))); [done|..].
  - exists [], []. repeat split. constructor; [|constructor].
    by apply occurs_nil_false.
  - intros k out (g & gs & -> & -> & HF). exists [], (g :: gs).
    repeat split. constructor; [|done]. by apply occurs_nil_false.
  - intros c k out Hs (g & gs & -> & -> & HF). exists (c :: g), gs.
    assert (Hj : forall s, join s ((c :: g) :: gs) = c :: join s (g :: gs))
      by (intros s; by destruct gs).
    rewrite !Hj. repeat split.
    apply Forall_cons in HF as [Hg HF]. constructor; [|done].
    rewrite occurs_unfold, Hg, orb_false_r.
    apply not_true_iff_false. intros Hs'. apply starts_with_inv in Hs' as [z E].
    assert (exists z', c :: join p (g :: gs) = p ++ z') as [z' E'].
    { destruct gs; cbn [join]; [by exists z|].
      eexists. rewrite app_comm_cons, E, <- (assoc_L (++)). done. }
    rewrite E', starts_with_app in Hs. done.
Qed.

Lemma occurs_join_elem q s g gs :
  g ∈ gs -> occurs q g = true -> occurs q (join s gs) = true.
Proof.
  intros Hin Hq. induction gs as [|g0 [|g1 gs] IH].
  - by apply elem_of_nil in Hin.
  - apply list_elem_of_singleton in Hin as ->. done.
  - change (join s (g0 :: g1 :: gs)) with (g0 ++ s ++ join s (g1 :: gs)).
    apply elem_of_cons in Hin as [->|Hin].
    + by apply (occurs_within q []).
    + specialize (IH Hin). apply occurs_iff in IH as (x & y & ->).
      apply occurs_iff. exists (g0 ++ s ++ x), y.
      by rewrite <- !(assoc_L (++)).
Qed.

(** An occurrence of [q] among pieces glued with [r], when [q] cannot
    touch [r], lies in one of the pieces. *)
Lemma occurs_join_inv q r gs :
  NoTouch q r -> q <> [] -> occurs q (join r gs) = true ->
  exists g, g ∈ gs /\ occurs q g = true.
Proof.
  intros HT Hq. induction gs as [|g [|g' gs] IH]; intros H.
  - by rewrite occurs_nil_false in H.
  - exists g. split; [apply list_elem_of_here|done].
  - change (join r (g :: g' :: gs)) with (g ++ r ++ join r (g' :: gs)) in H.
    apply occurs_iff in H as (x & y & E).
    destruct (HT g (join r (g' :: gs)) x y E) as [L|L].
    + exists g. split; [apply list_elem_of_here|].
      rewrite (assoc_L (++) x) in E. symmetry in E.
      apply app_cut_le in E as (k & -> & _); [|by rewrite length_app].
      rewrite <- (assoc_L (++)). apply occurs_mid.
    + rewrite (assoc_L (++) g) in E.
      apply app_cut_le in E as (k & -> & E); [|by rewrite length_app].
      destruct IH as (g0 & Hin & Hg0).
      { rewrite E. apply (occurs_mid q k y). }
      exists g0. split; [by apply list_elem_of_further|done].
Qed.

(** After a step its pattern is gone, provided the pattern cannot touch
    the replacement. *)
Lemma absent_after_sub p r t :
  p <> [] -> NoTouch p r -> occurs p (sub p r t) = false.
Proof.
  intros Hp HT. destruct (sub_framed p r t Hp) as (gs & _ & -> & HF).
  apply not_true_iff_false. intros H.
  apply occurs_join_inv in H as (g & Hin & Hg); [|done..].
  rewrite Forall_forall in HF. rewrite (HF g Hin) in Hg. done.
Qed.

(** A step creates no occurrence of a fragment that cannot touch its
    replacement. *)
Lemma occurs_sub_inv p q r t :
  p <> [] -> q <> [] -> NoTouch q r ->
  occurs q (sub p r t) = true -> occurs q t = true.
Proof.
  intros Hp Hq HT H. destruct (sub_framed p r t Hp) as (gs & Et & Es & _).
  rewrite Es in H. apply occurs_join_inv in H as (g & Hin & Hg); [|done..].
  rewrite Et. by eapply occurs_join_elem.
Qed.

End Separation.

(** * The overlap checks are sound *)

Section Checks.
Implicit Types (p q r t a b x y m u v : text) (c : N).

Lemma agree_of_eq x y u v : x ++ u = y ++ v -> agree x y = true.
Proof.
  revert y. induction x as [|c x IH]; intros [|d y] E; try done.
  cbn [app] in E. injection E as -> E. cbn [agree].
  by rewrite N.eqb_refl, (IH y E).
Qed.

Lemma tails_agree_intro x y0 y' :
  y' <> [] -> agree x y' = true -> tails_agree x (y0 ++ y') = true.
Proof.
  intros Hy Ha. induction y0 as [|c y0 IH].
  - destruct y' as [|d y']; [done|]. cbn [app tails_agree]. by rewrite Ha.
  - cbn [app tails_agree]. rewrite IH. apply orb_true_r.
Qed.

(** An occurrence of [p] that starts inside the block [m] cuts [m] in
    two, and [p] runs along the second part. *)
Lemma overlap_inside a m b x p y :
  a ++ m ++ b = x ++ p ++ y ->
  length a <= length x -> length x < length a + length m ->
  exists m0 m', m = m0 ++ m' /\ m' <> [] /\
                length m0 = length x - length a /\ m' ++ b = p ++ y.
Proof.
  intros E L1 L2.
  apply app_cut_le in E as (k & -> & E); [|done].
  rewrite length_app in L2. symmetry in E.
  apply app_cut_le in E as (k' & -> & E); [|lia].
  exists k, k'. rewrite length_app in *. repeat split; [|lia|done].
  intros ->. cbn [length] in L2. lia.
Qed.

Lemma no_touch_sound p m : no_touch p m = true -> NoTouch p m.
Proof.
  unfold no_touch. rewrite andb_true_iff, !negb_true_iff.
  intros [H1 H2] a b x y E.
  destruct (decide (length x + length p <= length a)) as [|L1]; [by left|].
  destruct (decide (length a + length m <= length x)) as [|L2]; [by right|].
  exfalso. destruct (decide (length a <= length x)) as [L|L].
  - destruct (overlap_inside a m b x p y E) as (m0 & m' & -> & Hm' & _ & E');
      [lia..|].
    symmetry in E'. apply agree_of_eq in E'.
    by rewrite (tails_agree_intro p m0 m') in H1.
  - symmetry in E.
    destruct (overlap_inside x p y a m b E) as (p0 & p' & -> & Hp' & Hl & E');
      [lia..|].
    destruct p0 as [|c p0]; [cbn [length] in Hl; lia|].
    symmetry in E'. apply agree_of_eq in E'. cbn [app tail] in H2.
    by rewrite (tails_agree_intro m p0 p') in H2.
Qed.

Lemma unbordered_sound p : unbordered p = true -> Unbordered p.
Proof.
  destruct p as [|c0 p0] eqn:Ep; [done|]. rewrite <- Ep.
  intros H. split; [by subst|]. intros a b x y E.
  destruct (decide (length x + length p <= length a)) as [|L1]; [by left|].
  destruct (decide (length a + length p <= length x)) as [|L2];
    [by right; left|].
  destruct (decide (length x = length a)) as [|L3]; [by right; right|].
  exfalso.
  assert (exists p1 p', p = p1 ++ p' /\ p1 <> [] /\ p' <> [] /\
                        agree p p' = true) as (p1 & p' & Epp & Hp1 & Hp' & Ha).
  { destruct (decide (length a <= length x)) as [L|L].
    - destruct (overlap_inside a p b x p y E) as (p1 & p' & E1 & Hp' & Hl & E');
        [lia..|].
      exists p1, p'. repeat split; try done.
      + intros ->. cbn [length] in Hl. lia.
      + symmetry in E'. by apply agree_of_eq in E'.
    - symmetry in E.
      destruct (overlap_inside x p y a p b E) as (p1 & p' & E1 & Hp' & Hl & E');
        [lia..|].
      exists p1, p'. repeat split; try done.
      + intros ->. cbn [length] in Hl. lia.
      + symmetry in E'. by apply agree_of_eq in E'. }
  destruct p1 as [|c1 p1]; [done|]. rewrite Ep in Epp.
  cbn [app] in Epp. injection Epp as -> ->.
  rewrite Ep in H, Ha. cbn [unbordered] in H. apply negb_true_iff in H.
  by rewrite (tails_agree_intro _ p1 p') in H.
Qed.

Lemma run_in_offsets_intro m k p0 p' :
  p' <> [] -> agree p' m = true ->
  k + length p0 ∈ run_in_offsets m k (p0 ++ p').
Proof.
  intros Hp Ha. revert k. induction p0 as [|c p0 IH]; intros k.
  - destruct p' as [|d p']; [done|]. cbn [app run_in_offsets length].
    rewrite Ha, Nat.add_0_r. apply elem_of_app. left. apply list_elem_of_here.
  - cbn [app run_in_offsets length]. apply elem_of_app. right.
    replace (k + S (length p0)) with (S k + length p0) by lia. apply IH.
Qed.

(** An occurrence of [p] that touches a block which [p] cannot start in
    begins before the block, at one of the computed offsets. *)
Lemma touch_offset p m a b x y :
  tails_agree p m = false ->
  a ++ m ++ b = x ++ p ++ y ->
  ~ length x + length p <= length a -> ~ length a + length m <= length x ->
  length x <= length a /\ length a - length x ∈ run_in_offsets m 0 p.
Proof.
  intros H1 E L1 L2.
  destruct (decide (length a <= length x)) as [L|L].
  - exfalso.
    destruct (overlap_inside a m b x p y E) as (m0 & m' & -> & Hm' & _ & E');
      [lia..|].
    symmetry in E'. apply agree_of_eq in E'.
    by rewrite (tails_agree_intro p m0 m') in H1.
  - split; [lia|]. symmetry in E.
    destruct (overlap_inside x p y a m b E) as (p0 & p' & -> & Hp' & Hl & E');
      [lia..|].
    rewrite <- Hl. apply (run_in_offsets_intro m 0 p0 p'); [done|].
    by apply agree_of_eq in E'.
Qed.

End Checks.

(** * Runs of steps *)

Section Steps.
Implicit Types (p q r t a b m : text) (tr : text * text)
               (trs : list (text * text)).

Lemma apply_all_cons tr trs t :
  apply_all (tr :: trs) t = apply_all trs (sub tr.1 tr.2 t).
Proof. done. Qed.

Lemma apply_all_app trs1 trs2 t :
  apply_all (trs1 ++ trs2) t = apply_all trs2 (apply_all trs1 t).
Proof. apply foldl_app. Qed.

Lemma apply_all_absent trs t :
  Forall (fun tr => occurs tr.1 t = false) trs -> apply_all trs t = t.
Proof.
  induction 1 as [|tr trs H _ IH]; [done|].
  by rewrite apply_all_cons, sub_absent.
Qed.

(** A fragment that is absent stays absent through steps whose
    replacements it cannot touch. *)
Lemma absent_preserved q trs t :
  q <> [] -> Forall (fun tr => tr.1 <> [] /\ NoTouch q tr.2) trs ->
  occurs q t = false -> occurs q (apply_all trs t) = false.
Proof.
  intros Hq HF. revert t. induction HF as [|tr trs [Hp HT] _ IH]; intros t H.
  - done.
  - rewrite apply_all_cons. apply IH. apply not_true_iff_false. intros Ho.
    apply occurs_sub_inv in Ho; [|done..]. by rewrite H in Ho.
Qed.

Lemma clear_of_sound trs m :
  clear_of trs m = true ->
  Forall (fun tr => tr.1 <> [] /\ NoTouch tr.1 m) trs.
Proof.
  unfold clear_of. rewrite forallb_forall, Forall_forall. intros H tr Hin.
  apply list_elem_of_In in Hin. apply H in Hin.
  apply andb_true_iff in Hin as [Hn HT].
  split; [by destruct tr.1|by apply no_touch_sound].
Qed.

Lemma separated_sound trs : separated trs = true -> Separated trs.
Proof.
  unfold separated. rewrite andb_true_iff, !forallb_forall.
  intros [H1 H2]. split; apply Forall_forall; intros tr Hin.
  - by apply unbordered_sound, H1, list_elem_of_In.
  - by apply clear_of_sound, H2, list_elem_of_In.
Qed.

Lemma Separated_nonempty trs tr : Separated trs -> tr ∈ trs -> tr.1 <> [].
Proof.
  intros [H _] Hin. rewrite Forall_forall in H. apply (H tr Hin).
Qed.

Lemma Separated_no_touch trs tr tr' :
  Separated trs -> tr ∈ trs -> tr' ∈ trs -> NoTouch tr.1 tr'.2.
Proof.
  intros [_ H] Hin Hin'. rewrite Forall_forall in H.
  specialize (H tr' Hin'). rewrite Forall_forall in H. apply (H tr Hin).
Qed.

(** After the whole run no pattern of it is left. *)
Lemma apply_all_clears trs tr t :
  Separated trs -> tr ∈ trs -> occurs tr.1 (apply_all trs t) = false.
Proof.
  intros HS Hin. destruct (list_elem_of_split _ _ Hin) as (pre & post & E).
  rewrite E, apply_all_app, apply_all_cons.
  assert (Hp : tr.1 <> []) by by eapply Separated_nonempty.
  apply absent_preserved; [done| |].
  - apply Forall_forall. intros tr' Hin'.
    assert (tr' ∈ trs).
    { rewrite E. apply elem_of_app. right. by apply list_elem_of_further. }
    split; [by eapply Separated_nonempty|by eapply Separated_no_touch].
  - apply absent_after_sub; [done|]. by eapply Separated_no_touch.
Qed.

Lemma apply_all_idempotent trs t :
  Separated trs -> apply_all trs (apply_all trs t) = apply_all trs t.
Proof.
  intros HS. apply apply_all_absent, Forall_forall. intros tr Hin.
  by apply apply_all_clears.
Qed.

(** A block that no pattern can touch stays where it is, and the run
    works on the text before it and on the text behind it apart. *)
Lemma apply_all_block trs a m b :
  Forall (fun tr => tr.1 <> [] /\ NoTouch tr.1 m) trs ->
  apply_all trs (a ++ m ++ b) = apply_all trs a ++ m ++ apply_all trs b.
Proof.
  intros HF. revert a b. induction HF as [|tr trs [Hp HT] _ IH]; intros a b.
  - done.
  - rewrite !apply_all_cons, sub_isolated by done. apply IH.
Qed.

Lemma apply_all_framed trs t :
  Forall (fun tr => tr.1 <> []) trs -> framed_chain trs t (apply_all trs t).
Proof.
  intros HF. revert t. induction HF as [|tr trs Hp _ IH]; intros t.
  - done.
  - exists (sub tr.1 tr.2 t). split; [by apply sub_framed|].
    rewrite apply_all_cons. apply IH.
Qed.

Lemma occurs_trans q p t :
  occurs q p = true -> occurs p t = true -> occurs q t = true.
Proof.
  rewrite !occurs_iff. intros (a & b & ->) (x & y & ->).
  exists (x ++ a), (b ++ y). by rewrite <- !(assoc_L (++)).
Qed.

(** A step whose pattern contains the pattern of an earlier step finds
    nothing to replace: the run is the run without it. *)
Lemma drop_dead_step pre tr mid tr' post t :
  Separated (pre ++ tr :: mid ++ tr' :: post) ->
  occurs tr.1 tr'.1 = true ->
  apply_all (pre ++ tr :: mid ++ tr' :: post) t =
  apply_all (pre ++ tr :: mid ++ post) t.
Proof.
  intros HS Hin.
  rewrite !apply_all_app, !apply_all_cons, !apply_all_app, apply_all_cons.
  f_equal. apply sub_absent, not_true_iff_false. intros Ho.
  pose proof (occurs_trans _ _ _ Hin Ho) as Hq.
  assert (Htr : tr ∈ pre ++ tr :: mid ++ tr' :: post).
  { apply elem_of_app. right. apply list_elem_of_here. }
  rewrite absent_preserved in Hq; [done| | |].
  - by eapply Separated_nonempty.
  - apply Forall_forall. intros tr0 Hin0.
    assert (tr0 ∈ pre ++ tr :: mid ++ tr' :: post).
    { apply elem_of_app. right. apply list_elem_of_further.
      apply elem_of_app. by left. }
    split; [by eapply Separated_nonempty|by eapply Separated_no_touch].
  - apply absent_after_sub; [by eapply Separated_nonempty|].
    by eapply Separated_no_touch.
Qed.

End Steps.

(** * The script's constants *)

(** Each pattern of the script lies in the modelled fragment of [re] and
    matches one literal text; each replacement stands for itself. *)
Lemma patterns_literal :
  regex_literal formData_state_pattern = Some formData_state_old /\
  regex_literal setFormData_reset_pattern = Some setFormData_reset_old /\
  regex_literal handleEdit_pattern = Some handleEdit_old /\
  regex_literal old_submit = Some submit_old /\
  regex_literal old_select = Some select_old /\
  regex_literal old_project_item = Some project_item_old.
Proof. vm_compute. done. Qed.

Lemma templates_literal :
  template_literal formData_state_repl = Some formData_state_repl /\
  template_literal setFormData_reset_repl = Some setFormData_reset_repl /\
  template_literal handleEdit_repl = Some handleEdit_repl /\
  template_literal new_submit = Some new_submit /\
  template_literal new_select = Some new_select /\
  template_literal new_project_item = Some new_project_item.
Proof. vm_compute. done. Qed.

Lemma re_sub_literal pattern repl p t flags :
  regex_literal pattern = Some p -> template_literal repl = Some repl ->
  re_sub pattern repl t flags = Some (sub p repl t).
Proof. unfold re_sub. by intros -> ->. Qed.

Lemma rewrite_unfold t :
  rewrite t =
  sub project_item_old new_project_item
    (sub select_old new_select
      (sub submit_old new_submit
        (sub handleEdit_old handleEdit_repl
          (sub setFormData_reset_old setFormData_reset_repl
            (sub formData_state_old formData_state_repl t))))).
Proof. done. Qed.

Lemma re_sub_bind pattern repl p t flags (k : text -> option text) :
  regex_literal pattern = Some p -> template_literal repl = Some repl ->
  (re_sub pattern repl t flags ≫= k) = k (sub p repl t).
Proof. intros Hp Hr. by rewrite (re_sub_literal _ _ p). Qed.

(** The six calls of the script never fail, and they compute [rewrite]. *)
Lemma rewrite_re_eq t : rewrite_re t = Some (rewrite t).
Proof.
  destruct patterns_literal as (P1 & P2 & P3 & P4 & P5 & P6).
  destruct templates_literal as (R1 & R2 & R3 & R4 & R5 & R6).
  rewrite rewrite_unfold. unfold rewrite_re.
  etrans; [exact (re_sub_bind _ _ _ _ _ _ P1 R1)|]. cbv beta.
  etrans; [exact (re_sub_bind _ _ _ _ _ _ P2 R2)|]. cbv beta.
  etrans; [exact (re_sub_bind _ _ _ _ _ _ P3 R3)|]. cbv beta.
  etrans; [exact (re_sub_bind _ _ _ _ _ _ P4 R4)|]. cbv beta.
  etrans; [exact (re_sub_bind _ _ _ _ _ _ P5 R5)|]. cbv beta.
  exact (re_sub_literal _ _ _ _ _ P6 R6).
Qed.

Lemma transformations_separated : Separated transformations.
Proof. apply separated_sound. vm_compute. done. Qed.

Lemma transformations_nonempty :
  Forall (fun tr => tr.1 <> []) transformations.
Proof.
  apply Forall_forall. intros tr Hin.
  by eapply Separated_nonempty; [apply transformations_separated|].
Qed.

Lemma state_decl_old :
  formData_state_old = state_decl_before ++ customerId_line ++ state_decl_after.
Proof. vm_compute. done. Qed.

Lemma state_decl_new :
  formData_state_repl =
  state_decl_before ++ customerFirestoreId_line ++ state_decl_after.
Proof. vm_compute. done. Qed.

(** The reset call is part of the submit handler the fourth step looks
    for. *)
Lemma reset_inside_submit : occurs setFormData_reset_old submit_old = true.
Proof. vm_compute. done. Qed.

Lemma transformations_split :
  transformations =
  (formData_state_old, formData_state_repl) :: drop 1 transformations.
Proof. done. Qed.

(** * Running the script *)

Section Run.
Implicit Types (w : world) (f : file).

(** A script of this shape, whatever its six steps are, as long as
    together they compute [g]. *)
Lemma run_steps (s1 s2 s3 s4 s5 s6 : text -> option text) (g : text -> text) :
  (forall t, (c ← s1 t; c ← s2 c; c ← s3 c; c ← s4 c; c ← s5 c; s6 c)
             = Some (g t)) ->
  forall w,
  (content ← read_text target;
   content ← compiled (s1 content);
   content ← compiled (s2 content);
   content ← compiled (s3 content);
   content ← compiled (s4 content);
   content ← compiled (s5 content);
   content ← compiled (s6 content);
   write_text target content;;
   print success_line) w =
  match files w !! target with
  | None => (inl FileNotFoundError, w)
  | Some f =>
      if readable f then
        let w1 := record (EvRead target) w in
        let c := g (contents f) in
        if writable f then
          (inr tt,
           record (EvPrint success_line)
             (record (EvWrite target c)
                (store target (File c (readable f) true) w1)))
        else (inl PermissionError, w1)
      else (inl PermissionError, w)
  end.
Proof.
  intros HR w. unfold mbind at 1 2 3 4 5 6 7 8. unfold M_bind, read_text.
  destruct (files w !! target) as [f|] eqn:E; [|done].
  destruct (readable f) eqn:Er; [|done].
  specialize (HR (contents f)).
  destruct (s1 _) as [c1|]; [|done]. cbn in HR |- *.
  destruct (s2 _) as [c2|]; [|done]. cbn in HR |- *.
  destruct (s3 _) as [c3|]; [|done]. cbn in HR |- *.
  destruct (s4 _) as [c4|]; [|done]. cbn in HR |- *.
  destruct (s5 _) as [c5|]; [|done]. cbn in HR |- *.
  rewrite HR. cbn. unfold write_text. cbn. rewrite E.
  destruct (writable f); [|done]. by rewrite Er.
Qed.

(** What the script does, by the state of the target file. *)
Lemma main_run w :
  main w =
  match files w !! target with
  | None => (inl FileNotFoundError, w)
  | Some f =>
      if readable f then
        let w1 := record (EvRead target) w in
        let c := rewrite (contents f) in
        if writable f then
          (inr tt,
           record (EvPrint success_line)
             (record (EvWrite target c)
                (store target (File c (readable f) true) w1)))
        else (inl PermissionError, w1)
      else (inl PermissionError, w)
  end.
Proof.
  exact (run_steps
    (fun c => re_sub formData_state_pattern formData_state_repl c [])
    (fun c => re_sub setFormData_reset_pattern setFormData_reset_repl c [])
    (fun c => re_sub handleEdit_pattern handleEdit_repl c [])
    (fun c => re_sub old_submit new_submit c [DOTALL])
    (fun c => re_sub old_select new_select c [DOTALL])
    (fun c => re_sub old_project_item new_project_item c [DOTALL])
    rewrite rewrite_re_eq w).
Qed.

End Run.

(** * Properties of the rewriter *)

(** X1.  Whatever the input, the fourth step finds nothing to replace:
    the second step has already rewritten the reset call inside every
    submit handler the fourth step could match.  The script computes what
    it would compute without its fourth step. *)
Lemma submit_step_never_applies t :
  rewrite t = apply_all transformations_without_submit t.
Proof.
  exact (drop_dead_step
           [(formData_state_old, formData_state_repl)]
           (setFormData_reset_old, setFormData_reset_repl)
           [(handleEdit_old, handleEdit_repl)]
           (submit_old, new_submit)
           [(select_old, new_select); (project_item_old, new_project_item)]
           t transformations_separated reset_inside_submit).
Qed.

(** C1.  The claim: an input that holds all six original fragments comes
    out with all six replacements and none of the originals.  The code on
    [fixture], which holds the six originals: the submit handler is not
    replaced.  The second step rewrites the reset call inside it, the
    fourth step then finds no match, and the output holds the handler half
    rewritten and no [new_submit]. *)
Theorem fixture_submit_not_replaced :
  forallb (fun tr => occurs tr.1 fixture) transformations = true /\
  rewrite fixture =
    join newline [formData_state_repl; setFormData_reset_repl; handleEdit_repl;
                  submit_half_rewritten; new_select; new_project_item] /\
  occurs new_submit (rewrite fixture) = false.
Proof. vm_compute. done. Qed.

(** C2.  The claim: a step whose pattern is absent changes nothing, and an
    input that lacks exactly one original fragment has the other five
    replaced.  The code on [fixture_without_state], which lacks the state
    declaration only: the first step changes nothing, as claimed, but of
    the five fragments present the submit handler is not replaced. *)
Theorem partial_fixture_submit_not_replaced :
  occurs formData_state_old fixture_without_state = false /\
  sub formData_state_old formData_state_repl fixture_without_state =
    fixture_without_state /\
  forallb (fun tr => occurs tr.1 fixture_without_state)
          (drop 1 transformations) = true /\
  rewrite fixture_without_state =
    join newline [setFormData_reset_repl; handleEdit_repl;
                  submit_half_rewritten; new_select; new_project_item] /\
  occurs new_submit (rewrite fixture_without_state) = false.
Proof. vm_compute. done. Qed.

(** C3.  The rewriter is idempotent: on the result of a first run a second
    run changes nothing, because none of the six original fragments occurs
    in that result. *)
Theorem rewrite_idempotent (t : text) :
  rewrite (rewrite t) = rewrite t /\
  Forall (fun tr => occurs tr.1 (rewrite t) = false) transformations.
Proof.
  pose proof transformations_separated as HS. split.
  - by apply apply_all_idempotent.
  - apply Forall_forall. intros tr Hin. by apply apply_all_clears.
Qed.



(** The renamed line can meet the first pattern in one way only: as the
    line of the state declaration. *)
Lemma state_line_isolated (u v : text) :
  ~ (state_decl_before `suffix_of` u /\ state_decl_after `prefix_of` v) ->
  Isolated formData_state_old u customerId_line v.
Proof.
  intros Hctx x y E.
  destruct (decide (length x + length formData_state_old <= length u))
    as [|L1]; [by left|].
  destruct (decide (length u + length customerId_line <= length x))
    as [|L2]; [by right|].
  exfalso. apply Hctx.
  assert (Ht : tails_agree formData_state_old customerId_line = false)
    by (vm_compute; done).
  destruct (touch_offset _ _ _ _ _ _ Ht E L1 L2) as [Lx Hoff].
  assert (Ho : run_in_offsets customerId_line 0 formData_state_old
               = [length state_decl_before]) by (vm_compute; done).
  rewrite Ho in Hoff. apply list_elem_of_singleton in Hoff.
  rewrite state_decl_old in E.
  rewrite <- !(assoc_L (++)) in E. rewrite (assoc_L (++) x) in E.
  apply app_inj_1 in E as [-> E]; [|rewrite length_app; lia].
  apply app_inv_head in E as ->.
  split; [by exists x|by exists y].
Qed.

(** C5.  A state declaration in the input, wherever it stands, comes out
    with the line [customerId: undefined as number | undefined] renamed, in
    its place, and the text before it and behind it is rewritten as it
    would be alone.  The same line anywhere else (not between the two
    halves of the state declaration) comes out as it went in; no other
    pattern of the script can match any part of it. *)
Theorem state_line_renamed_in_context (u v : text) :
  rewrite (u ++ state_decl_before ++ customerId_line ++ state_decl_after ++ v) =
    rewrite u ++ state_decl_before ++ customerFirestoreId_line ++
    state_decl_after ++ rewrite v /\
  (~ (state_decl_before `suffix_of` u /\ state_decl_after `prefix_of` v) ->
   rewrite (u ++ customerId_line ++ v) =
     rewrite u ++ customerId_line ++ rewrite v).
Proof.
  pose proof transformations_separated as [HU HT].
  unfold rewrite. rewrite transformations_split in HU, HT |- *.
  apply Forall_cons in HU as [HU _]. apply Forall_cons in HT as [HT _].
  apply Forall_cons in HT as [[Hp _] HT]. cbn [fst snd] in *.
  rewrite !apply_all_cons. cbn [fst snd]. split.
  - replace (u ++ state_decl_before ++ customerId_line ++ state_decl_after ++ v)
      with (u ++ formData_state_old ++ v)
      by (by rewrite state_decl_old, <- !(assoc_L (++))).
    rewrite sub_at_occurrence, apply_all_block by done.
    by rewrite state_decl_new, <- !(assoc_L (++)).
  - intros Hctx. rewrite sub_isolated; [|done|by apply state_line_isolated].
    apply apply_all_block, clear_of_sound. vm_compute. done.
Qed.

(** The line inside a state declaration, and the line after some other
    text. *)
Lemma state_line_renamed_in_context_witness :
  rewrite ([] ++ state_decl_before ++ customerId_line ++ state_decl_after ++ []) =
    rewrite [] ++ state_decl_before ++ customerFirestoreId_line ++
    state_decl_after ++ rewrite [] /\
  rewrite ([] ++ customerId_line ++ []) =
    rewrite [] ++ customerId_line ++ rewrite [].
Proof.
  destruct (state_line_renamed_in_context [] []) as [H1 H2].
  split; [exact H1|]. apply H2. intros [[k Hk] _].
  destruct k; discriminate Hk.
Defined.

(** C6.  When the target file opens for reading and for writing, what the
    script writes is the six substitutions applied one after the other, in
    the order of the script, to the content read, each to the result of
    the one before; it is written to the path that was read, in place of
    the file that was there, and no other file changes. *)
Theorem written_content_is_composition (w : world) (f : file) :
  files w !! target = Some f -> readable f = true -> writable f = true ->
  let c :=
    sub project_item_old new_project_item
      (sub select_old new_select
        (sub submit_old new_submit
          (sub handleEdit_old handleEdit_repl
            (sub setFormData_reset_old setFormData_reset_repl
              (sub formData_state_old formData_state_repl (contents f)))))) in
  rewrite_re (contents f) = Some c /\
  (main w).1 = inr tt /\
  journal (main w).2 =
    journal w ++ [EvRead target; EvWrite target c; EvPrint success_line] /\
  files (main w).2 = <[target := File c true true]> (files w).
Proof.
  intros Hf Hr Hw c. rewrite main_run, Hf, Hr, Hw. cbn zeta.
  rewrite rewrite_re_eq, rewrite_unfold. fold c.
  cbn [fst snd journal files record store].
  by rewrite <- !(assoc_L (++)).
Qed.

Lemma written_content_is_composition_witness :
  let c := rewrite fixture in
  rewrite_re fixture = Some c /\
  (main writable_world).1 = inr tt /\
  journal (main writable_world).2 =
    [EvRead target; EvWrite target c; EvPrint success_line] /\
  files (main writable_world).2 =
    <[target := File c true true]> (files writable_world).
Proof.
  exact (written_content_is_composition writable_world (File fixture true true)
           (lookup_singleton_eq target (File fixture true true))
           eq_refl eq_refl).
Defined.

(** C7.  A run that raises prints nothing.  A run that does not raise
    reads, then writes, then prints the success line, once and last. *)
Theorem success_line_after_write (w : world) :
  if raised (main w) then stdout (main w).2 = stdout w
  else exists c,
    journal (main w).2 =
      journal w ++ [EvRead target; EvWrite target c; EvPrint success_line] /\
    stdout (main w).2 = stdout w ++ [success_line].
Proof.
  rewrite main_run. unfold raised, stdout.
  destruct (files w !! target) as [f|]; [|done].
  destruct (readable f); [|done]. cbn zeta.
  destruct (writable f); cbn [fst snd journal record store].
  - eexists. split; [by rewrite <- !(assoc_L (++))|].
    by rewrite !omap_app, <- !(assoc_L (++)).
  - by rewrite omap_app, app_nil_r.
Qed.

(** C8, as stated, fails: the same content at the target path, and one
    run reports success while the other raises, because the second file
    does not open for writing. *)
Lemma same_content_different_outcome :
  contents <$> files writable_world !! target =
    contents <$> files read_only_world !! target /\
  raised (main writable_world) = false /\
  raised (main read_only_world) = true /\
  stdout (main writable_world).2 <> stdout (main read_only_world).2.
Proof. rewrite !main_run. vm_compute. done. Qed.

(** C8, amended.  Two runs that find the target file in the same state,
    content and permissions, end alike: the same result, the same effects
    in the same order, the same file at the target path.  Other files,
    earlier effects, arguments and environment play no part. *)
Theorem run_depends_on_target_file_only (w1 w2 : world) :
  files w1 !! target = files w2 !! target ->
  (main w1).1 = (main w2).1 /\
  drop (length (journal w1)) (journal (main w1).2) =
    drop (length (journal w2)) (journal (main w2).2) /\
  files (main w1).2 !! target = files (main w2).2 !! target.
Proof.
  intros E. rewrite !main_run, <- E.
  destruct (files w1 !! target) as [f|] eqn:E1.
  - destruct (readable f), (writable f);
      cbn [fst snd journal files record store];
      rewrite <- ?(assoc_L (++)), ?drop_app_length, ?drop_all,
        ?lookup_insert_eq; repeat split; by rewrite ?E1.
  - cbn [fst snd]. rewrite !drop_all. repeat split. by rewrite E1.
Qed.

Lemma run_depends_on_target_file_only_witness :
  (main writable_world).1 = (main busy_world).1 /\
  drop (length (journal writable_world)) (journal (main writable_world).2) =
    drop (length (journal busy_world)) (journal (main busy_world).2) /\
  files (main writable_world).2 !! target = files (main busy_world).2 !! target.
Proof.
  apply (run_depends_on_target_file_only writable_world busy_world).
  vm_compute. reflexivity.
Defined.

(** C9.  Each of the six steps replaces all occurrences of its pattern:
    a text made of pieces with the pattern between them, however many,
    comes out as the pieces, each put through the step, with the
    replacement between them; when the pieces are free of the pattern they
    come out as they are, with as many replacements as there were
    occurrences; and the result of a step never holds its pattern. *)
Theorem every_occurrence_replaced :
  Forall (fun tr =>
    (forall gs, sub tr.1 tr.2 (join tr.1 gs) = join tr.2 (map (sub tr.1 tr.2) gs)) /\
    (forall gs, Forall (fun g => occurs tr.1 g = false) gs ->
                sub tr.1 tr.2 (join tr.1 gs) = join tr.2 gs) /\
    (forall t, occurs tr.1 (sub tr.1 tr.2 t) = false))
  transformations.
Proof.
  pose proof transformations_separated as HS.
  apply Forall_forall. intros tr Hin.
  assert (HU : Unbordered tr.1).
  { destruct HS as [HU _]. rewrite Forall_forall in HU. by apply HU. }
  repeat split.
  - intros gs. by apply sub_join.
  - intros gs HF. rewrite sub_join by done. f_equal.
    induction HF as [|g gs Hg _ IH]; [done|].
    cbn [map]. by rewrite IH, sub_absent.
  - intros t. apply absent_after_sub; [apply HU|].
    by eapply Separated_no_touch.
Qed.

(** C10.  The rewriter leaves alone what its patterns do not match: each
    step cuts its input at the matched occurrences, keeps the pieces
    between them as they are and in their order, and puts its replacement
    where each occurrence stood; the next step works on that text. *)
Theorem rewrite_keeps_unmatched_text (t : text) :
  framed_chain transformations t (rewrite t).
Proof. apply apply_all_framed, transformations_nonempty. Qed.

(** * Blocks that hold a pattern, and steps in another order *)

Section Blocks.
Implicit Types (p q r s t a b x y m g : text) (gs : list text)
               (tr : text * text) (trs : list (text * text)).

Lemma hangs_out_intro p m0 m' :
  m' <> [] -> starts_with m' p = true -> length m' < length p ->
  hangs_out p (m0 ++ m') = true.
Proof.
  intros Hm Hs Hl. induction m0 as [|c m0 IH].
  - destruct m' as [|d m']; [done|]. cbn [app hangs_out].
    rewrite Hs. apply Nat.ltb_lt in Hl. by rewrite Hl.
  - cbn [app hangs_out]. rewrite IH. apply orb_true_r.
Qed.

Lemma contained_sound p m a b : contained p m = true -> Contained p a m b.
Proof.
  unfold contained. rewrite andb_true_iff, !negb_true_iff.
  intros [H1 H2] x y E.
  destruct (decide (length x + length p <= length a)) as [|L1]; [by left|].
  destruct (decide (length a + length m <= length x)) as [|L2];
    [by right; left|].
  right; right. destruct (decide (length a <= length x)) as [L|L].
  - split; [done|].
    destruct (decide (length x + length p <= length a + length m))
      as [|L3]; [done|]. exfalso.
    destruct (overlap_inside a m b x p y E) as (m0 & m' & -> & Hm' & Hl & E');
      [lia..|].
    rewrite length_app in L3.
    apply app_cut_le in E' as (k & Ek & _); [|lia].
    rewrite (hangs_out_intro p m0 m') in H2; [done..| |lia].
    rewrite Ek. apply starts_with_app.
  - exfalso. symmetry in E.
    destruct (overlap_inside x p y a m b E) as (p0 & p' & -> & Hp' & Hl & E');
      [lia..|].
    destruct p0 as [|c p0]; [cbn [length] in Hl; lia|].
    symmetry in E'. apply agree_of_eq in E'. cbn [app tail] in H1.
    by rewrite (tails_agree_intro m p0 p') in H1.
Qed.

(** A block that holds every occurrence touching it is rewritten by
    itself. *)
Lemma sub_contained p r a m b :
  p <> [] -> Contained p a m b ->
  sub p r (a ++ m ++ b) = sub p r a ++ sub p r m ++ sub p r b.
Proof.
  intros Hp H. rewrite sub_app; [f_equal; apply sub_app|..]; try done.
  - intros x y E Hx. destruct (H (a ++ x) y) as [L|[L|L]].
    + by rewrite E, <- !(assoc_L (++)).
    + destruct p; [done|]. rewrite length_app in L. cbn [length] in L. lia.
    + rewrite length_app in L. lia.
    + rewrite length_app in L. lia.
  - intros x y E Hx. destruct (H x y E) as [L|[L|L]]; lia.
Qed.

(** Pieces glued with a separator the pattern cannot touch are rewritten
    one by one. *)
Lemma sub_join_block p r s gs :
  p <> [] -> NoTouch p s ->
  sub p r (join s gs) = join s (map (sub p r) gs).
Proof.
  intros Hp HT. induction gs as [|g [|g' gs] IH].
  - by apply sub_nil.
  - done.
  - change (join s (g :: g' :: gs)) with (g ++ s ++ join s (g' :: gs)).
    rewrite sub_isolated, IH by done. done.
Qed.

(** Two steps whose patterns keep clear of each other and of each other's
    replacement give the same text in either order. *)
Lemma sub_commute p1 r1 p2 r2 t :
  p1 <> [] -> Unbordered p2 ->
  NoTouch p1 r2 -> NoTouch p1 p2 -> NoTouch p2 r1 ->
  sub p1 r1 (sub p2 r2 t) = sub p2 r2 (sub p1 r1 t).
Proof.
  intros Hp1 HU H12 Hpp H21.
  destruct (sub_framed p2 r2 t (proj1 HU)) as (gs & Et & -> & HF).
  rewrite Et.
  rewrite !sub_join_block, sub_join by done. f_equal.
  rewrite map_map. apply map_ext_Forall.
  eapply Forall_impl; [exact HF|]. intros g Hg. cbv beta. symmetry.
  apply sub_absent, not_true_iff_false. intros Ho.
  apply occurs_sub_inv in Ho; [|done|apply HU|done]. by rewrite Hg in Ho.
Qed.

Lemma commuting_sound tr tr' t :
  commuting tr tr' = true ->
  sub tr.1 tr.2 (sub tr'.1 tr'.2 t) = sub tr'.1 tr'.2 (sub tr.1 tr.2 t).
Proof.
  unfold commuting. rewrite !andb_true_iff.
  intros [[[[Hn HU] H1] H2] H3].
  apply sub_commute; [by destruct tr.1|by apply unbordered_sound|
                      by apply no_touch_sound..].
Qed.

Lemma independent_sound trs tr tr' t :
  independent trs = true -> tr ∈ trs -> tr' ∈ trs ->
  sub tr.1 tr.2 (sub tr'.1 tr'.2 t) = sub tr'.1 tr'.2 (sub tr.1 tr.2 t).
Proof.
  unfold independent. rewrite forallb_forall. intros H Hin Hin'.
  apply list_elem_of_In in Hin, Hin'. specialize (H tr Hin).
  rewrite forallb_forall in H. specialize (H tr' Hin').
  apply orb_true_iff in H as [H|H].
  - by apply bool_decide_eq_true in H as ->.
  - by apply commuting_sound.
Qed.

(** Steps that pairwise commute can be run in any order. *)
Lemma apply_all_Permutation trs trs' :
  trs ≡ₚ trs' ->
  (forall tr tr' t, tr ∈ trs -> tr' ∈ trs ->
     sub tr.1 tr.2 (sub tr'.1 tr'.2 t) = sub tr'.1 tr'.2 (sub tr.1 tr.2 t)) ->
  forall t, apply_all trs t = apply_all trs' t.
Proof.
  induction 1 as [|tr l l' HP IH|tr tr' l|l l' l'' HP IH HP' IH'];
    intros HC t.
  - done.
  - rewrite !apply_all_cons. apply IH. intros tr1 tr2 t' H1 H2.
    apply HC; by apply list_elem_of_further.
  - rewrite !apply_all_cons. f_equal. apply HC.
    + apply list_elem_of_further, list_elem_of_here.
    + apply list_elem_of_here.
  - rewrite IH by done. apply IH'. intros tr1 tr2 t' H1 H2.
    apply HC; by rewrite HP.
Qed.

End Blocks.

Section Places.
Implicit Types (p q r s t a b u v m : text) (tr : text * text)
               (pre post trs : list (text * text)).

Lemma apply_all_at_occurrence pre tr post u v :
  in_place pre tr post = true ->
  apply_all (pre ++ tr :: post) (u ++ tr.1 ++ v) =
  apply_all (pre ++ tr :: post) u ++ tr.2 ++ apply_all (pre ++ tr :: post) v.
Proof.
  unfold in_place. rewrite !andb_true_iff. intros [[H1 H2] H3].
  apply clear_of_sound in H1, H3. apply unbordered_sound in H2.
  rewrite !apply_all_app, !apply_all_cons.
  by rewrite apply_all_block, sub_at_occurrence, apply_all_block.
Qed.

Lemma apply_all_through_block pre tr post m u v :
  block_in_place pre tr post m = true ->
  apply_all (pre ++ tr :: post) (u ++ m ++ v) =
  apply_all (pre ++ tr :: post) u ++ sub tr.1 tr.2 m ++
  apply_all (pre ++ tr :: post) v.
Proof.
  unfold block_in_place. rewrite !andb_true_iff. intros [[[H1 Hn] H2] H3].
  apply clear_of_sound in H1, H3.
  rewrite !apply_all_app, !apply_all_cons.
  rewrite apply_all_block by done.
  rewrite sub_contained; [|by destruct tr.1|by apply contained_sound].
  by rewrite apply_all_block.
Qed.

Lemma sub_grows p r t :
  p <> [] -> length p < length r ->
  length t <= length (sub p r t) /\
  (length (sub p r t) = length t -> sub p r t = t).
Proof.
  intros Hp Hl.
  apply (sub_ind p r (fun t out =>
    length t <= length out /\ (length out = length t -> out = t)));
    [done|done|..].
  - intros k out [IH _]. rewrite !length_app. split; lia.
  - intros c k out _ [IH1 IH2]. cbn [length]. split; [lia|].
    intros E. f_equal. apply IH2. lia.
Qed.

Lemma apply_all_grows trs t :
  growing trs = true ->
  length t <= length (apply_all trs t) /\
  (length (apply_all trs t) = length t -> apply_all trs t = t).
Proof.
  unfold growing. rewrite forallb_forall. revert t.
  induction trs as [|tr trs IH]; intros t H; [done|].
  rewrite apply_all_cons.
  pose proof (H tr (or_introl eq_refl)) as Htr.
  apply andb_true_iff in Htr as [Hn Hl].
  apply Nat.ltb_lt in Hl.
  destruct (sub_grows tr.1 tr.2 t) as [L1 E1]; [by destruct tr.1|done|].
  destruct (IH (sub tr.1 tr.2 t)) as [L2 E2].
  { intros tr' Hin. apply H. by right. }
  split; [lia|]. intros E. rewrite E2 by lia. apply E1. lia.
Qed.

End Places.

(** * More properties of the rewriter and of the script *)

(** X2.  The rewriter returns its input unchanged exactly when none of the
    six original fragments occurs in it. *)
Theorem rewrite_fixed_iff (t : text) :
  rewrite t = t <->
  Forall (fun tr => occurs tr.1 t = false) transformations.
Proof.
  split.
  - intros E. apply Forall_forall. intros tr Hin. rewrite <- E.
    by apply apply_all_clears; [apply transformations_separated|].
  - apply apply_all_absent.
Qed.

(** X3.  A replacement fragment that is already in the input stays where
    it is, whichever of the six it is: the text before it and the text
    behind it are rewritten as they would be alone. *)
Theorem migrated_fragments_stay :
  Forall (fun tr => forall u v,
            rewrite (u ++ tr.2 ++ v) = rewrite u ++ tr.2 ++ rewrite v)
         transformations.
Proof.
  destruct transformations_separated as [_ HT].
  eapply Forall_impl; [exact HT|]. intros tr HF u v.
  by apply apply_all_block.
Qed.

(** X4.  For each step but the fourth, an occurrence of its original
    fragment comes out as its replacement, in place, whatever stands
    before and behind it; the text around is rewritten as it would be
    alone. *)
Theorem live_fragments_replaced_in_place :
  Forall (fun tr => forall u v,
            rewrite (u ++ tr.1 ++ v) = rewrite u ++ tr.2 ++ rewrite v)
         transformations_without_submit.
Proof.
  change transformations_without_submit with
    [ (formData_state_old, formData_state_repl);
      (setFormData_reset_old, setFormData_reset_repl);
      (handleEdit_old, handleEdit_repl);
      (select_old, new_select);
      (project_item_old, new_project_item) ].
  repeat apply Forall_cons_2; [..|apply Forall_nil_2]; intros u v.
  - refine (apply_all_at_occurrence [] _ (drop 1 transformations) u v _).
    vm_compute. done.
  - refine (apply_all_at_occurrence (take 1 transformations) _
              (drop 2 transformations) u v _).
    vm_compute. done.
  - refine (apply_all_at_occurrence (take 2 transformations) _
              (drop 3 transformations) u v _).
    vm_compute. done.
  - refine (apply_all_at_occurrence (take 4 transformations) _
              (drop 5 transformations) u v _).
    vm_compute. done.
  - refine (apply_all_at_occurrence (take 5 transformations) _ [] u v _).
    vm_compute. done.
Qed.

(** X5.  An occurrence of the original submit handler comes out half
    rewritten, in place: only the reset call inside it is changed, by the
    second step, and no later step touches the result. *)
Theorem submit_handler_half_rewritten_in_place (u v : text) :
  rewrite (u ++ submit_old ++ v) =
  rewrite u ++ submit_half_rewritten ++ rewrite v.
Proof.
  refine (apply_all_through_block (take 1 transformations)
            (setFormData_reset_old, setFormData_reset_repl)
            (drop 2 transformations) submit_old u v _).
  vm_compute. done.
Qed.

(** X6.  The five steps that can apply may be run in any order: every
    order gives what the script computes. *)
Theorem live_steps_in_any_order (trs : list (text * text)) :
  transformations_without_submit ≡ₚ trs ->
  forall t, apply_all trs t = rewrite t.
Proof.
  intros HP t.
  rewrite <- (apply_all_Permutation _ _ HP).
  - symmetry.
    exact (drop_dead_step
             [(formData_state_old, formData_state_repl)]
             (setFormData_reset_old, setFormData_reset_repl)
             [(handleEdit_old, handleEdit_repl)]
             (submit_old, new_submit)
             [(select_old, new_select); (project_item_old, new_project_item)]
             t transformations_separated reset_inside_submit).
  - intros tr tr' t' Hin Hin'.
    apply (independent_sound transformations_without_submit); [|done..].
    vm_compute. done.
Qed.

Lemma live_steps_in_any_order_witness :
  apply_all live_steps_reversed fixture = rewrite fixture.
Proof.
  apply (live_steps_in_any_order live_steps_reversed).
  symmetry. apply reverse_Permutation.
Defined.

Lemma patterns_unescaped :
  regex_literal formData_state_pattern = Some (unescaped formData_state_pattern) /\
  regex_literal setFormData_reset_pattern =
    Some (unescaped setFormData_reset_pattern) /\
  regex_literal handleEdit_pattern = Some (unescaped handleEdit_pattern) /\
  regex_literal old_submit = Some (unescaped old_submit) /\
  regex_literal old_select = Some (unescaped old_select) /\
  regex_literal old_project_item = Some (unescaped old_project_item).
Proof. vm_compute. done. Qed.

(** X7.  Each of the six [re.sub] calls of the script is a plain text
    replacement: on every content it succeeds and replaces the occurrences
    of one fixed text, the pattern with its backslashes taken out, by the
    replacement string as written. *)
Theorem script_calls_are_literal (t : text) :
  re_sub formData_state_pattern formData_state_repl t [] =
    Some (sub (unescaped formData_state_pattern) formData_state_repl t) /\
  re_sub setFormData_reset_pattern setFormData_reset_repl t [] =
    Some (sub (unescaped setFormData_reset_pattern) setFormData_reset_repl t) /\
  re_sub handleEdit_pattern handleEdit_repl t [] =
    Some (sub (unescaped handleEdit_pattern) handleEdit_repl t) /\
  re_sub old_submit new_submit t [DOTALL] =
    Some (sub (unescaped old_submit) new_submit t) /\
  re_sub old_select new_select t [DOTALL] =
    Some (sub (unescaped old_select) new_select t) /\
  re_sub old_project_item new_project_item t [DOTALL] =
    Some (sub (unescaped old_project_item) new_project_item t).
Proof.
  destruct patterns_unescaped as (P1 & P2 & P3 & P4 & P5 & P6).
  destruct templates_literal as (R1 & R2 & R3 & R4 & R5 & R6).
  split_and!.
  - exact (re_sub_literal _ _ _ _ _ P1 R1).
  - exact (re_sub_literal _ _ _ _ _ P2 R2).
  - exact (re_sub_literal _ _ _ _ _ P3 R3).
  - exact (re_sub_literal _ _ _ _ _ P4 R4).
  - exact (re_sub_literal _ _ _ _ _ P5 R5).
  - exact (re_sub_literal _ _ _ _ _ P6 R6).
Qed.

(** X8.  The rewriter never shortens a text, and a result of the same
    length is the input itself: whatever it changes makes the text
    longer. *)
Theorem rewrite_never_shortens (t : text) :
  length t <= length (rewrite t) /\
  (length (rewrite t) = length t -> rewrite t = t).
Proof. apply apply_all_grows. vm_compute. done. Qed.

(** X9.  The script touches nothing but the target file: every other
    file, the arguments and the environment are as before, earlier effects
    stay recorded, and at most one write takes place, to the target
    path. *)
Theorem main_touches_only_target (w : world) :
  (forall path, path <> target ->
     files (main w).2 !! path = files w !! path) /\
  argv (main w).2 = argv w /\
  environ (main w).2 = environ w /\
  journal w `prefix_of` journal (main w).2 /\
  (writes (main w).2 = writes w \/
   exists c, writes (main w).2 = writes w ++ [(target, c)]).
Proof.
  rewrite main_run. unfold writes.
  destruct (files w !! target) as [f|];
    [destruct (readable f); [destruct (writable f)|]|];
    cbn [fst snd files journal argv environ record store];
    repeat split; try done.
  - intros path Hp. by rewrite lookup_insert_ne.
  - rewrite <- !(assoc_L (++)). by eexists.
  - right. eexists. by rewrite !omap_app, app_nil_r, <- (assoc_L (++)).
  - by eexists.
  - left. by rewrite omap_app, app_nil_r.
  - by left.
  - by left.
Qed.


Lemma rewrite_twice (t : text) : rewrite (rewrite t) = rewrite t.
Proof. exact (apply_all_idempotent _ _ transformations_separated). Qed.

(** X11.  Running the script again after a run that succeeded succeeds
    again, leaves every file as the first run left it, and prints the
    success line once more. *)
Theorem second_run_changes_nothing (w : world) :
  raised (main w) = false ->
  raised (main (main w).2) = false /\
  files (main (main w).2).2 = files (main w).2 /\
  stdout (main (main w).2).2 = stdout (main w).2 ++ [success_line].
Proof.
  intros Hok. rewrite (main_run (main w).2).
  rewrite main_run in Hok |- *. unfold raised, stdout in *.
  destruct (files w !! target) as [f|]; [|done].
  destruct (readable f) eqn:Er; [|done].
  destruct (writable f) eqn:Ew; [|done].
  cbn [fst snd files journal record store].
  rewrite lookup_insert_eq. cbn [readable writable contents].
  cbn [fst snd files journal record store]. rewrite rewrite_twice.
  split_and!; [done|by rewrite insert_insert_eq|].
  rewrite !omap_app. cbn [omap list_omap]. by rewrite <- !(assoc_L (++)).
Qed.

Lemma second_run_changes_nothing_witness :
  raised (main (main writable_world).2) = false /\
  files (main (main writable_world).2).2 = files (main writable_world).2 /\
  stdout (main (main writable_world).2).2 =
    stdout (main writable_world).2 ++ [success_line].
Proof.
  apply (second_run_changes_nothing writable_world).
  rewrite main_run. vm_compute. reflexivity.
Defined.
